(** * database.py: sessions, lookups and result normalisation

    A shallow embedding of [src/database.py] (classes [Engine] and
    [BaseModel]).  Python values are an inductive type, [dict]s with string
    keys are [gmap string _], printing and raising are a small writer/error
    monad, the SQLAlchemy session and the DB-API cursor are interfaces. *)

From Stdlib Require Import Ascii String ZArith.
From stdpp Require Import base strings list gmap fin_maps pretty.

#[local] Set Warnings "-clear-no-such-hyp".

(** ** Python values *)

Module Py.

(** [datetime.datetime], naive (no tzinfo). *)
Record datetime := mk_datetime {
  year : N; month : N; day : N;
  hour : N; minute : N; second : N; microsecond : N }.

(** [str.zfill]. *)
Definition zfill (width : nat) (s : string) : string :=
  String.string_of_list_ascii (replicate (width - String.length s) "0"%char) +:+ s.

(** [str(dt)], which is [dt.isoformat(sep=' ')]: the fraction is printed only
    when [microsecond] is not zero. *)
Definition datetime_str (dt : datetime) : string :=
  zfill 4 (pretty (year dt)) +:+ "-" +:+ zfill 2 (pretty (month dt)) +:+ "-" +:+
  zfill 2 (pretty (day dt)) +:+ " " +:+ zfill 2 (pretty (hour dt)) +:+ ":" +:+
  zfill 2 (pretty (minute dt)) +:+ ":" +:+ zfill 2 (pretty (second dt)) +:+
  (if decide (microsecond dt = 0%N) then ""
   else "." +:+ zfill 6 (pretty (microsecond dt))).

(** Column values. *)
Inductive scalar :=
| SNone
| SBool (b : bool)
| SInt (z : Z)
| SStr (s : string)
| SDatetime (dt : datetime).

(** [str(v)]. *)
Definition scalar_str (v : scalar) : string :=
  match v with
  | SNone => "None"
  | SBool true => "True"
  | SBool false => "False"
  | SInt z => pretty z
  | SStr s => s
  | SDatetime dt => datetime_str dt
  end.

(** [isinstance(v, datetime.datetime)]. *)
Definition is_datetime (v : scalar) : bool :=
  match v with SDatetime _ => true | _ => false end.

(** [bool(v)]. *)
Definition scalar_bool (v : scalar) : bool :=
  match v with
  | SNone => false
  | SBool b => b
  | SInt z => negb (z =? 0)%Z
  | SStr s => negb (String.eqb s "")
  | SDatetime _ => true
  end.

(** A mapped instance: its columns in mapper order, each with the value of
    the attribute of that name. *)
Record entity := mk_entity { entity_columns : list (string * scalar) }.

(** [obj.__mapper__.c.keys()]. *)
Definition mapper_keys (e : entity) : list string := (entity_columns e).*1.

(** One element of a result row: a column value or a whole instance. *)
Inductive cell :=
| CScalar (v : scalar)
| CEntity (e : entity).

(** Instances define neither [__bool__] nor [__len__]: always true. *)
Definition cell_bool (c : cell) : bool :=
  match c with CScalar v => scalar_bool v | CEntity _ => true end.

(** [sqlalchemy.engine.row.Row]: a tuple of cells with the result's keys. *)
Record row := mk_row { row_keys : list string; row_data : list cell }.

(** What an executed ORM query yields per match: the instance for a
    one-entity query, a [Row] otherwise. *)
Inductive fetched :=
| FEntity (e : entity)
| FRow (r : row).

(** [sqlalchemy.orm.Query]: its SQL text ([str(query)]) and the matches its
    execution yields. *)
Record query := mk_query { query_str : string; query_rows : list fetched }.

#[warnings="-register-all"]
Inductive pyobj :=
| PScalar (v : scalar)
| PEntity (e : entity)
| PRow (r : row)
| PQuery (q : query)
| PList (l : list pyobj)
| PDict (d : gmap string scalar)
| PRowMapping (r : row).

Abbreviation PNone := (PScalar SNone).

Definition pyobj_of_cell (c : cell) : pyobj :=
  match c with CScalar v => PScalar v | CEntity e => PEntity e end.

Definition pyobj_of_fetched (f : fetched) : pyobj :=
  match f with FEntity e => PEntity e | FRow r => PRow r end.

(** ** Exceptions *)

Inductive exn_class :=
| AttributeError
| IndexError
| IntegrityError
| NoResultFound
| MultipleResultsFound
| KeyboardInterrupt
| SystemExit.

(** [issubclass(cls, Exception)]: [KeyboardInterrupt] and [SystemExit] derive
    from [BaseException] only. *)
Definition is_Exception (cls : exn_class) : bool :=
  match cls with
  | KeyboardInterrupt | SystemExit => false
  | _ => true
  end.

Inductive outcome (E A : Type) :=
| Ok (a : A)
| Raise (e : E).
Arguments Ok {E A} a.
Arguments Raise {E A} e.

(** ** Printing and raising

    A computation yields the lines it printed, in order, and either a value
    or the class of the exception it raised.  Lines printed before a raise
    stay printed. *)
Definition io (A : Type) : Type := list string * outcome exn_class A.

#[global] Instance io_ret : MRet io := λ A a, ([], Ok a).
#[global] Instance io_bind : MBind io := λ A B f m,
  match m.2 with
  | Ok a => (m.1 ++ (f a).1, (f a).2)
  | Raise e => (m.1, Raise e)
  end.

Definition print (s : string) : io unit := ([s], Ok tt).
Definition raise {A} (e : exn_class) : io A := ([], Raise e).

(** [try: m  except ...: h]: [h e] is [None] when no clause matches [e]. *)
Definition try_except {A} (m : io A) (h : exn_class → option (io A)) : io A :=
  match m.2 with
  | Ok a => m
  | Raise e =>
      match h e with
      | Some k => (m.1 ++ k.1, k.2)
      | None => m
      end
  end.

Definition stdout {A} (m : io A) : list string := m.1.
Definition result {A} (m : io A) : outcome exn_class A := m.2.

End Py.
Export Py.

(** ** Result normalisation: [BaseModel.to_dict] *)

Module Normalizer.

(** [getattr(obj, key)] on an instance. *)
Definition getattr (e : entity) (key : string) : io scalar :=
  match list_find (λ kv, kv.1 = key) (entity_columns e) with
  | Some (_, (_, v)) => mret v
  | None => raise AttributeError
  end.

(** The loop of lines 231-235, [result] being the dict built so far. *)
Fixpoint columns_loop (e : entity) (keys : list string)
    (result : gmap string scalar) : io (gmap string scalar) :=
  match keys with
  | [] => mret result
  | key :: keys' =>
      v ← getattr e key;
      if is_datetime v
      then columns_loop e keys' (<[key := SStr (scalar_str v)]> result)
      else columns_loop e keys' (<[key := v]> result)
  end.

(** Lines 229-235: the branch for an object that is no list, no [Query] and no
    [Row].  Only a mapped instance has [__mapper__]. *)
Definition to_dict_mapped (obj : pyobj) : io (gmap string scalar) :=
  match obj with
  | PEntity e => columns_loop e (mapper_keys e) ∅
  | _ => raise AttributeError
  end.

(** [cls.to_dict(i)] for an element [i] of a row: [i] is no list, no [Query]
    and no [Row], so the call takes the branch of lines 229-235 (see
    [to_dict_cell_eq] below). *)
Definition to_dict_cell (i : cell) : io (gmap string scalar) :=
  to_dict_mapped (pyobj_of_cell i).

(** Lines 225-226: [for i in obj: result.update(cls.to_dict(i))]. *)
Fixpoint update_loop (cells : list cell) (result : gmap string scalar)
    : io (gmap string scalar) :=
  match cells with
  | [] => mret result
  | i :: cells' => d ← to_dict_cell i; update_loop cells' (d ∪ result)
  end.

(** [obj[-1]]. *)
Definition getitem_last (r : row) : io cell :=
  match last (row_data r) with
  | Some c => mret c
  | None => raise IndexError
  end.

Fixpoint to_dict (obj : pyobj) : io pyobj :=
  match obj with
  | PList l =>
      result ← (fix loop (l : list pyobj) (result : list pyobj) : io (list pyobj) :=
                  match l with
                  | [] => mret result
                  | o :: l' => r ← to_dict o; loop l' (result ++ [r])
                  end) l [];
      mret (PList result)
  | PQuery _ =>
      _ ← print "请先执行该sql语句!";
      mret PNone
  | PRow r =>
      c ← getitem_last r;
      if cell_bool c then
        result ← update_loop (row_data r) ∅;
        mret (PDict result)
      else mret (PRowMapping r)
  | _ =>
      result ← to_dict_mapped obj;
      mret (PDict result)
  end.

(** The list loop of lines 213-215 on its own. *)
Fixpoint list_loop (l : list pyobj) (result : list pyobj) : io (list pyobj) :=
  match l with
  | [] => mret result
  | o :: l' => r ← to_dict o; list_loop l' (result ++ [r])
  end.

End Normalizer.
Export Normalizer.

(** ** Lookups: [get_all], [get_first], [get_one] *)

Module Lookup.

Definition nl : string := String (ascii_of_nat 10) EmptyString.

(** [Query.all()], [Query.first()] and [Query.one()] of SQLAlchemy, by their
    documented behaviour on the matches of the query. *)
Definition Query_all (q : query) : io pyobj :=
  mret (PList (pyobj_of_fetched <$> query_rows q)).

Definition Query_first (q : query) : io pyobj :=
  match query_rows q with
  | [] => mret PNone
  | f :: _ => mret (pyobj_of_fetched f)
  end.

Definition Query_one (q : query) : io pyobj :=
  match query_rows q with
  | [] => raise NoResultFound
  | [f] => mret (pyobj_of_fetched f)
  | _ :: _ :: _ => raise MultipleResultsFound
  end.

Definition get_all (q : query) : io pyobj := Query_all q.

Definition get_first (q : query) : io pyobj := Query_first q.

Definition multiple_report (q : query) : string :=
  "db_error: 查到多条数据" +:+ nl +:+ query_str q.

Definition no_result_report (q : query) : string :=
  "db_error: 查不到数据" +:+ nl +:+ query_str q.

(** A handler that only prints falls off the end of the function, which
    returns [None]. *)
Definition get_one (q : query) : io pyobj :=
  try_except (Query_one q) (λ e,
    match e with
    | MultipleResultsFound => Some (_ ← print (multiple_report q); mret PNone)
    | NoResultFound => Some (_ ← print (no_result_report q); mret PNone)
    | _ => None
    end).

End Lookup.
Export Lookup.

(** ** Raw SQL: [Engine.execute], [fetch_all], [fetch_any] *)

Module Engine.

(** The result cursor [execute] returns.  [fetchall] and [fetchmany] are the
    driver's.  Their laws are what DB-API 2.0 (PEP 249) fixes: [fetchmany]
    with a positive size fetches that many of the remaining rows, and without
    a size it does what it does for the cursor's [arraysize].  What a size of
    zero or less gives is left to the driver. *)
Class Cursor (C : Type) := {
  remaining : C → list row;
  arraysize : C → Z;
  fetchall : C → list row;
  fetchmany : option Z → C → list row;
  fetchall_remaining c : fetchall c = remaining c;
  fetchmany_sized n c :
    (0 < n)%Z → fetchmany (Some n) c = take (Z.to_nat n) (remaining c);
  fetchmany_default c : fetchmany None c = fetchmany (Some (arraysize c)) c
}.

(** [self.engine]: running a statement gives a cursor over its result. *)
Record engine (C : Type) := mk_engine { engine_execute : string → C }.
Arguments engine_execute {C} _ _.

Section engine.
Context {C : Type} `{!Cursor C} (self : engine C).

Definition execute (sql : string) : C := engine_execute self sql.

Definition fetch_all (sql : string) : list row := fetchall (execute sql).

(** [size=None] is the default of the parameter. *)
Definition fetch_any (sql : string) (size : option Z) : list row :=
  fetchmany size (execute sql).

End engine.

(** A cursor over a list of rows that fetches as the cursor of [sqlite3]
    does: [fetchmany] takes rows until it has counted [size] of them, a count
    that a size of zero or less never meets, so that every row is taken. *)
Record list_cursor := mk_list_cursor { cursor_arraysize : Z; cursor_rows : list row }.

Definition list_cursor_fetchmany (size : option Z) (c : list_cursor) : list row :=
  let maxrows := default (cursor_arraysize c) size in
  if (0 <? maxrows)%Z then take (Z.to_nat maxrows) (cursor_rows c) else cursor_rows c.

#[global, refine] Instance list_cursor_Cursor : Cursor list_cursor := {|
  remaining := cursor_rows;
  arraysize := cursor_arraysize;
  fetchall := cursor_rows;
  fetchmany := list_cursor_fetchmany
|}.
Proof.
  - reflexivity.
  - intros n c Hn. unfold list_cursor_fetchmany. simpl.
    by rewrite (proj2 (Z.ltb_lt 0 n) Hn).
  - reflexivity.
Defined.

End Engine.
Export Engine.

(** ** Scoped transactions: [BaseModel.auto_commit] *)

Module Transaction.

(** An exception object: its identity and its class. *)
Record exception := mk_exception { exc_id : N; exc_class : exn_class }.

(** Code that works on the session: the outcome and the session after it. *)
Definition txn (S A : Type) : Type := S → outcome exception A * S.

#[global] Instance txn_ret {S} : MRet (txn S) := λ A a s, (Ok a, s).
#[global] Instance txn_bind {S} : MBind (txn S) := λ A B f m s,
  match m s with
  | (Ok a, s') => f a s'
  | (Raise e, s') => (Raise e, s')
  end.

Definition txn_raise {S A} (e : exception) : txn S A := λ s, (Raise e, s).

(** [try: m  except Exception as e: h e]: an exception whose class does not
    derive from [Exception] passes through. *)
Definition try_except_Exception {S A} (m : txn S A) (h : exception → txn S A) : txn S A :=
  λ s,
    match m s with
    | (Ok a, s') => (Ok a, s')
    | (Raise e, s') =>
        if is_Exception (exc_class e) then h e s' else (Raise e, s')
    end.

(** [self.session]: SQLAlchemy's session, of which the code uses [commit] and
    [rollback]; either may itself raise. *)
Class Session (S : Type) := {
  commit : txn S unit;
  rollback : txn S unit
}.

(** [with self.auto_commit(): body].  The body runs at the [yield]; an
    exception of the body is raised there, inside the [try]. *)
Definition auto_commit {S A} `{!Session S} (body : txn S A) : txn S A :=
  try_except_Exception
    (a ← body; _ ← commit; mret a)
    (λ e, _ ← rollback; txn_raise e).

(** An in-memory session to run examples on: staged and stored keys, and the
    calls made.  [commit] refuses a key staged or stored twice. *)
Inductive call := Commit | Rollback.

Record mem_session := mk_mem_session {
  stored : list string;
  staged : list string;
  calls : list call }.

Definition mem_commit : txn mem_session unit := λ s,
  if decide (NoDup (stored s ++ staged s))
  then (Ok tt, mk_mem_session (stored s ++ staged s) [] (calls s ++ [Commit]))
  else (Raise (mk_exception 0 IntegrityError),
        mk_mem_session (stored s) (staged s) (calls s ++ [Commit])).

Definition mem_rollback : txn mem_session unit := λ s,
  (Ok tt, mk_mem_session (stored s) [] (calls s ++ [Rollback])).

#[global] Instance mem_session_Session : Session mem_session :=
  {| commit := mem_commit; rollback := mem_rollback |}.

(** [session.add]. *)
Definition mem_add (key : string) : txn mem_session unit := λ s,
  (Ok tt, mk_mem_session (stored s) (staged s ++ [key]) (calls s)).

End Transaction.
Export Transaction.

(** ** Vocabulary of the statements *)

Module Statements.

(** What lines 232-235 store under a key whose attribute is [v]. *)
Definition stored_value (v : scalar) : scalar :=
  if is_datetime v then SStr (scalar_str v) else v.

(** The values of a returned mapping: of a dict, and of a row's
    [_mapping]. *)
Definition mapping_values (o : pyobj) : list cell :=
  match o with
  | PDict d => CScalar <$> (map_to_list d).*2
  | PRowMapping r => row_data r
  | _ => []
  end.

Definition holds_datetime (o : pyobj) : Prop :=
  ∃ dt, CScalar (SDatetime dt) ∈ mapping_values o.

(** A dict without a datetime among its values. *)
Definition no_datetime (d : gmap string scalar) : Prop :=
  ∀ k v, d !! k = Some v → is_datetime v = false.

(** A printed line that ends in the text of the query. *)
Definition reports_query (line : string) (q : query) : Prop :=
  ∃ heading, line = heading +:+ query_str q.

(** [get_one] handing out the normal form of the one match. *)
Definition get_one_normalizes (q : query) : Prop :=
  ∀ f, query_rows q = [f] →
       result (get_one q) = result (to_dict (pyobj_of_fetched f)).

(** Whatever exception leaves the body, the scope leaves the session rolled
    back and raises that exception. *)
Definition rolls_back_on_every_exception {S A} `{!Session S}
    (body : txn S A) (s : S) : Prop :=
  ∀ e s1, body s = (Raise e, s1) →
          auto_commit body s = (Raise e, (rollback s1).2).


End Statements.
Export Statements.

(** ** Example data *)

Module Examples.

Definition created : datetime := mk_datetime 2024 1 2 3 4 5 0.

Definition user : entity :=
  mk_entity [("id", SInt 1); ("name", SStr "a"); ("created_at", SDatetime created)].

Definition address : entity :=
  mk_entity [("id", SInt 7); ("email", SStr "a@b.c")].

Definition user_dict : gmap string scalar :=
  {[ "id" := SInt 1; "name" := SStr "a"; "created_at" := SStr "2024-01-02 03:04:05" ]}.

Definition address_dict : gmap string scalar :=
  {[ "id" := SInt 7; "email" := SStr "a@b.c" ]}.

(** [query(User, Address)]: a row of two instances. *)
Definition join_row : row := mk_row ["User"; "Address"] [CEntity user; CEntity address].

(** [query(User.id, User.name)] on the user above. *)
Definition projection_row : row :=
  mk_row ["id"; "name"] [CScalar (SInt 1); CScalar (SStr "a")].

(** [query(User.created_at, User.deleted_at)] on a user never deleted. *)
Definition flat_row : row :=
  mk_row ["created_at"; "deleted_at"] [CScalar (SDatetime created); CScalar SNone].

Definition no_user : query := mk_query "SELECT users.id FROM users WHERE 1 = 0" [].
Definition one_user : query := mk_query "SELECT users.id FROM users" [FEntity user].
Definition two_users : query :=
  mk_query "SELECT users.id FROM users" [FEntity user; FEntity user].

Definition empty_session : mem_session := mk_mem_session [] [] [].
Definition session_with_k : mem_session := mk_mem_session ["k"] [] [].

(** Bodies of a [with] block: one that stages a key, one that is interrupted
    after staging it, one that fails after staging it. *)
Definition stage_k : txn mem_session unit := mem_add "k".

Definition interrupted : txn mem_session unit :=
  _ ← mem_add "k"; txn_raise (mk_exception 7 KeyboardInterrupt).

Definition failing : txn mem_session unit :=
  _ ← mem_add "k"; txn_raise (mk_exception 8 AttributeError).

(** A statement with two result rows, on a cursor with the [arraysize]
    drivers start with. *)
Definition two_row_engine : engine list_cursor :=
  mk_engine list_cursor (λ _, mk_list_cursor 1%Z [projection_row; flat_row]).

End Examples.
Export Examples.

(** ** Built-in operations of the connection set-up and the timing hooks *)

Module Builtins.

(** The exceptions of the code below: the classes above, and two more. *)
Inductive exn :=
| Exn (cls : exn_class)
| KeyError (key : string)
| TypeError.

#[export] Instance outcome_ret : MRet (outcome exn) := λ A a, Ok a.
#[export] Instance outcome_bind : MBind (outcome exn) := λ A B f m,
  match m with
  | Ok a => f a
  | Raise e => Raise e
  end.

(** [d[key]] on a dict. *)
Definition getitem {V} (d : gmap string V) (key : string) : outcome exn V :=
  match d !! key with
  | Some v => Ok v
  | None => Raise (KeyError key)
  end.

(** The integer a value counts as in arithmetic: [bool] is a subclass of
    [int]. *)
Definition scalar_int (v : scalar) : option Z :=
  match v with
  | SBool b => Some (if b then 1 else 0)%Z
  | SInt z => Some z
  | _ => None
  end.

(** [a + b]: strings concatenate, integers add, anything else here has no
    [+]. *)
Definition py_add (a b : scalar) : outcome exn scalar :=
  match a, b with
  | SStr s, SStr t => Ok (SStr (s +:+ t))
  | _, _ =>
      match scalar_int a, scalar_int b with
      | Some x, Some y => Ok (SInt (x + y))
      | _, _ => Raise TypeError
      end
  end.

(** [a and b], with [b] evaluated only when [a] is true. *)
Definition py_and (a : scalar) (b : outcome exn scalar) : outcome exn scalar :=
  if scalar_bool a then b else Ok a.

End Builtins.
Export Builtins.

(** ** Connection set-up: [Engine.__init__], up to the call of [URL.create] *)

Module Config.

Import Builtins.

(** Lines 42-43. *)
Definition db_type (conn : gmap string scalar) : outcome exn scalar :=
  c ← (dialect ← getitem conn "dialect"; py_and dialect (getitem conn "driver"));
  if scalar_bool c then
    dialect ← getitem conn "dialect";
    driver ← getitem conn "driver";
    mret (SStr (scalar_str dialect +:+ "+" +:+ scalar_str driver))
  else
    dialect ← getitem conn "dialect";
    driver ← getitem conn "driver";
    py_add dialect driver.

(** The arguments of [URL.create] at lines 44-51. *)
Record url_args := mk_url_args {
  drivername : scalar;
  username : scalar;
  password : scalar;
  host : scalar;
  port : scalar;
  database : scalar }.

Definition url_create_args (conn : gmap string scalar) : outcome exn url_args :=
  db_type ← db_type conn;
  username ← getitem conn "username";
  password ← getitem conn "password";
  host ← getitem conn "host";
  port ← getitem conn "port";
  database ← getitem conn "database";
  mret (mk_url_args db_type username password host port database).

(** The keys [__init__] reads. *)
Definition conn_keys : list string :=
  ["dialect"; "driver"; "username"; "password"; "host"; "port"; "database"].

End Config.
Export Config.

(** ** Timing hooks: [before_cursor_execute], [after_cursor_execute] *)

Module Timing.

Definition query_start_time : string := "query_start_time".

Section hooks.

(** Clock readings are floats: their difference, the test [total >= 1] and
    the format [{total: .3f}] are taken as they come. *)
Context {T : Type} (sub : T → T → T) (ge_one : T → bool) (format_3f : T → string).

(** [info.setdefault(key, default)]: the list under the key, put there first
    when the key is new. *)
Definition setdefault (key : string) (default : list T) (info : gmap string (list T))
    : list T * gmap string (list T) :=
  match info !! key with
  | Some l => (l, info)
  | None => (default, <[key := default]> info)
  end.

(** Line 24, [now] being [time.time()].  The list appended to is the one in
    [conn.info]. *)
Definition before_cursor_execute (now : T) (info : gmap string (list T))
    : gmap string (list T) :=
  let '(l, info') := setdefault query_start_time [] info in
  <[query_start_time := l ++ [now]]> info'.

(** [l.pop(-1)]: the last element and the list without it. *)
Definition pop_last (l : list T) : outcome exn (T * list T) :=
  match last l with
  | Some x => Ok (x, removelast l)
  | None => Raise (Exn IndexError)
  end.

Definition slow_report (statement : string) (total : T) : string :=
  "Query: " +:+ statement +:+ ", 用时:" +:+ format_3f total +:+ "s".

(** Lines 29-31: what is printed, how the hook ends, and [conn.info] after
    it. *)
Definition after_cursor_execute (now : T) (statement : string)
    (info : gmap string (list T))
    : list string * outcome exn unit * gmap string (list T) :=
  match getitem info query_start_time with
  | Raise e => ([], Raise e, info)
  | Ok l =>
      match pop_last l with
      | Raise e => ([], Raise e, info)
      | Ok (start, l') =>
          let total := sub now start in
          (if ge_one total then [slow_report statement total] else [],
           Ok tt,
           <[query_start_time := l']> info)
      end
  end.

(** Cursor executions that start one inside the other: the [before] hooks
    in order. *)
Definition befores (starts : list T) (info : gmap string (list T))
    : gmap string (list T) :=
  foldl (λ info now, before_cursor_execute now info) info starts.

(** The [after] hooks in order, each with its clock reading and statement;
    a hook that raises ends the run. *)
Fixpoint afters (ends : list (T * string)) (info : gmap string (list T))
    : list string * outcome exn unit * gmap string (list T) :=
  match ends with
  | [] => ([], Ok tt, info)
  | (now, statement) :: ends' =>
      match after_cursor_execute now statement info with
      | (out, Ok _, info') =>
          let '(out', r, info'') := afters ends' info' in (out ++ out', r, info'')
      | (out, Raise e, info') => (out, Raise e, info')
      end
  end.

End hooks.

End Timing.
Export Timing.

(** ** Shapes of values, and runs of the hooks *)

Module Shapes.

(** The line [to_dict] prints for a [Query]. *)
Definition misuse_line : string := "请先执行该sql语句!".

(** Lists within lists with nothing else in them. *)
Fixpoint leafless (v : pyobj) : bool :=
  match v with
  | PList l => forallb leafless l
  | _ => false
  end.

(** What [to_dict] can return: [None], a dict, a row's mapping, or a list of
    such. *)
Fixpoint normalized (v : pyobj) : bool :=
  match v with
  | PScalar SNone | PDict _ | PRowMapping _ => true
  | PList l => forallb normalized l
  | _ => false
  end.

(** The [Query] objects in a value. *)
Fixpoint count_queries (obj : pyobj) : nat :=
  match obj with
  | PQuery _ => 1
  | PList l => foldr (λ o n, count_queries o + n) 0 l
  | _ => 0
  end.

(** The body or the [commit] after it raising [e0], the session being [s0]
    then. *)
Definition scope_fails {S A} `{!Session S} (body : txn S A) (s : S)
    (e0 : exception) (s0 : S) : Prop :=
  body s = (Raise e0, s0)
  ∨ ∃ a s1, body s = (Ok a, s1) ∧ commit s1 = (Raise e0, s0).

(** The start times not yet popped. *)
Definition pending {T} (info : gmap string (list T)) : list T :=
  default [] (info !! query_start_time).

(** What [after] hooks print when each is paired with the latest start not
    yet taken. *)
Definition paired_reports {T} (sub : T → T → T) (ge_one : T → bool)
    (format_3f : T → string) (ends : list (T * string)) (starts : list T)
    : list string :=
  concat (zip_with (λ e start,
            if ge_one (sub e.1 start)
            then [slow_report format_3f e.2 (sub e.1 start)] else [])
          ends (rev starts)).

End Shapes.
Export Shapes.

(** ** More example data *)

Module Doubles.

(** A session whose [commit] and [rollback] end as scripted, one entry per
    call; with the script used up they succeed. *)
Record scripted_session := mk_scripted { script : list (outcome exception unit) }.

Definition scripted_call : txn scripted_session unit := λ s,
  match script s with
  | [] => (Ok tt, s)
  | r :: rest => (r, mk_scripted rest)
  end.

#[global] Instance scripted_Session : Session scripted_session :=
  {| commit := scripted_call; rollback := scripted_call |}.

Definition connection_lost : exception := mk_exception 9 IntegrityError.

(** A body that fails with an [AttributeError] on a session whose next call
    fails too. *)
Definition failing_scripted : txn scripted_session unit :=
  txn_raise (mk_exception 8 AttributeError).

Definition lost_session : scripted_session := mk_scripted [Raise connection_lost].

Definition sqlite_conn : gmap string scalar :=
  {[ "dialect" := SStr "sqlite"; "driver" := SStr ""; "username" := SNone;
     "password" := SNone; "host" := SNone; "port" := SNone;
     "database" := SStr ":memory:" ]}.

Definition mysql_conn : gmap string scalar :=
  {[ "dialect" := SStr "mysql"; "driver" := SStr "pymysql"; "username" := SStr "root";
     "password" := SStr "pw"; "host" := SStr "localhost"; "port" := SInt 3306;
     "database" := SStr "test" ]}.

(** A driver left out as [None] rather than as the empty string. *)
Definition null_driver_conn : gmap string scalar :=
  <["driver" := SNone]> sqlite_conn.

(** Clock readings in milliseconds. *)
Definition ms_sub : Z → Z → Z := Z.sub.
Definition ms_ge_one (t : Z) : bool := (1000 <=? t)%Z.
Definition ms_format (t : Z) : string := pretty t.

End Doubles.
Export Doubles.

(** * Properties *)

(** ** The monad *)

Lemma io_bind_ret {A B} (a : A) (f : A → io B) : (x ← mret a; f x) = f a.
Proof. unfold mbind, io_bind, mret, io_ret. simpl. by destruct (f a). Qed.

Lemma io_bind_raise {A B} (e : exn_class) (f : A → io B) : (x ← raise e; f x) = raise e.
Proof. reflexivity. Qed.

Lemma io_bind_result_ok {A B} (m : io A) (f : A → io B) (a : A) :
  result m = Ok a → result (x ← m; f x) = result (f a).
Proof. destruct m as [out r]. simpl. intros ->. reflexivity. Qed.

Lemma io_bind_result_raise {A B} (m : io A) (f : A → io B) (e : exn_class) :
  result m = Raise e → result (x ← m; f x) = Raise e.
Proof. destruct m as [out r]. simpl. intros ->. reflexivity. Qed.

Lemma io_bind_ok_inv {A B} (m : io A) (f : A → io B) (b : B) :
  result (x ← m; f x) = Ok b → ∃ a, result m = Ok a ∧ result (f a) = Ok b.
Proof. destruct m as [out [a|e]]; simpl; [eauto|done]. Qed.

(** ** Instances *)

Lemma getattr_mapped (e : entity) (key : string) :
  key ∈ mapper_keys e → ∃ v, getattr e key = mret v.
Proof.
  unfold mapper_keys, getattr. intros Hin.
  apply list_elem_of_fmap in Hin as [[k v] [-> Hkv]].
  destruct (list_find (λ kv, kv.1 = (k, v).1) (entity_columns e)) as [[i [k' v']]|] eqn:Hfind.
  - eauto.
  - apply list_find_None in Hfind. rewrite Forall_forall in Hfind.
    exfalso. by apply (Hfind _ Hkv).
Qed.

Lemma getattr_unmapped (e : entity) (key : string) :
  key ∉ mapper_keys e → getattr e key = raise AttributeError.
Proof.
  unfold mapper_keys, getattr. intros Hnin.
  destruct (list_find (λ kv, kv.1 = key) (entity_columns e)) as [[i [k' v']]|] eqn:Hfind;
    [|done].
  apply list_find_Some in Hfind as (Hi & Hk & _). simpl in Hk. subst k'.
  exfalso. apply Hnin. apply list_elem_of_fmap. exists (key, v'). split; [done|].
  by eapply list_elem_of_lookup_2.
Qed.

Lemma columns_loop_ok (e : entity) (keys : list string) (result : gmap string scalar) :
  keys ⊆ mapper_keys e →
  ∃ d, columns_loop e keys result = mret d
       ∧ dom d = list_to_set keys ∪ dom result
       ∧ (∀ k v, k ∈ keys → getattr e k = mret v → d !! k = Some (stored_value v))
       ∧ (∀ k, k ∉ keys → d !! k = result !! k).
Proof.
  revert result. induction keys as [|key keys IH]; intros result Hsub.
  - exists result. split_and!; [done|set_solver| |done].
    intros k v Hk. by apply elem_of_nil in Hk.
  - destruct (getattr_mapped e key) as [v Hv]; [set_solver|].
    destruct (IH (<[key := stored_value v]> result)) as (d & Hd & Hdom & Hin & Hout);
      [set_solver|].
    exists d. split_and!.
    + simpl. rewrite Hv, io_bind_ret. unfold stored_value in Hd. by destruct (is_datetime v).
    + rewrite Hdom, dom_insert_L. set_solver.
    + intros k w Hk Hw. destruct (decide (k ∈ keys)) as [Hkeys|Hkeys]; [by apply Hin|].
      apply elem_of_cons in Hk as [->|?]; [|done].
      rewrite Hout by done. rewrite lookup_insert_eq.
      rewrite Hv in Hw. by injection Hw as ->.
    + intros k Hk. apply not_elem_of_cons in Hk as [Hne Hk].
      rewrite Hout by done. by rewrite lookup_insert_ne.
Qed.

(** C4: for a mapped instance, [to_dict] returns a dict whose keys are exactly
    the instance's mapped column names; under each key stands the attribute of
    that name, as its string when it is a datetime and as it is otherwise. *)
Theorem to_dict_entity (e : entity) :
  ∃ d : gmap string scalar,
    to_dict (PEntity e) = mret (PDict d)
    ∧ dom d = list_to_set (mapper_keys e)
    ∧ ∀ key, key ∈ mapper_keys e →
        ∃ v, getattr e key = mret v
             ∧ d !! key = Some (match v with
                                | SDatetime dt => SStr (datetime_str dt)
                                | _ => v
                                end).
Proof.
  destruct (columns_loop_ok e (mapper_keys e) ∅) as (d & Hd & Hdom & Hin & _); [done|].
  exists d. split_and!.
  - simpl. rewrite Hd. by rewrite io_bind_ret.
  - rewrite Hdom, dom_empty_L. set_solver.
  - intros key Hkey. destruct (getattr_mapped e key Hkey) as [v Hv].
    exists v. split; [done|]. rewrite (Hin key v Hkey Hv). by destruct v.
Qed.

(** ** Rows *)

Lemma to_dict_cell_eq (i : cell) :
  to_dict (pyobj_of_cell i) = (d ← to_dict_cell i; mret (PDict d)).
Proof. by destruct i. Qed.

Lemma io_bind_PDict_inv (m : io (gmap string scalar)) (d : gmap string scalar) :
  (d' ← m; mret (PDict d')) = mret (PDict d) → m = mret d.
Proof.
  destruct m as [out [d'|e]]; unfold mbind, io_bind, mret, io_ret; simpl; [|done].
  rewrite app_nil_r. by intros [= -> ->].
Qed.

Lemma update_loop_ok (cells : list cell) (ds : list (gmap string scalar))
    (result : gmap string scalar) :
  Forall2 (λ i d, to_dict_cell i = mret d) cells ds →
  update_loop cells result = mret (foldl (λ acc d, d ∪ acc) result ds).
Proof.
  intros H. revert result. induction H as [|i d cells ds Hi _ IH]; intros result; [done|].
  simpl. by rewrite Hi, io_bind_ret, IH.
Qed.

(** After the updates a key holds what the last dict that has it gives, and
    what [result] held when none has it. *)
Lemma foldl_update_lookup (ds : list (gmap string scalar)) (result : gmap string scalar)
    (k : string) (v : scalar) :
  foldl (λ acc d, d ∪ acc) result ds !! k = Some v ↔
    (∃ j d, ds !! j = Some d ∧ d !! k = Some v
            ∧ ∀ j' d', j < j' → ds !! j' = Some d' → d' !! k = None)
    ∨ (result !! k = Some v ∧ ∀ j d, ds !! j = Some d → d !! k = None).
Proof.
  induction ds as [|d ds IH] using rev_ind.
  - simpl. split.
    + intros Hk. right. split; [done|]. intros j d Hj. by rewrite lookup_nil in Hj.
    + intros [(j & d & Hj & _)|[Hk _]]; [by rewrite lookup_nil in Hj|done].
  - rewrite foldl_snoc, lookup_union_Some_raw, IH. clear IH. split.
    + intros [Hd|[Hd [(j & d' & Hj & Hk & Hlater)|[Hk Hnone]]]].
      * left. exists (length ds), d. split_and!; [by rewrite list_lookup_middle|done|].
        intros j' d' Hlt Hj'. apply lookup_lt_Some in Hj'.
        rewrite length_app in Hj'. simpl in Hj'. lia.
      * left. exists j, d'. split_and!; [by apply lookup_app_l_Some|done|].
        intros j' d'' Hlt Hj'. apply lookup_snoc_Some in Hj' as [[_ Hj']|[_ <-]]; [|done].
        by eapply Hlater.
      * right. split; [done|]. intros j d' Hj.
        apply lookup_snoc_Some in Hj as [[_ Hj]|[_ <-]]; [|done]. by eapply Hnone.
    + intros [(j & d' & Hj & Hk & Hlater)|[Hk Hnone]].
      * apply lookup_snoc_Some in Hj as [[Hlt Hj]|[-> <-]]; [|by left].
        right. split.
        { apply (Hlater (length ds) d); [done|]. by rewrite list_lookup_middle. }
        left. exists j, d'. split_and!; [done..|].
        intros j' d'' Hlt' Hj'. apply (Hlater j' d''); [done|]. by apply lookup_app_l_Some.
      * right. split.
        { apply (Hnone (length ds) d). by rewrite list_lookup_middle. }
        right. split; [done|]. intros j d' Hj. apply (Hnone j d').
        by apply lookup_app_l_Some.
Qed.

(** C5: on a row whose last element is false, [to_dict] returns the row's own
    mapping ([obj._mapping]), nothing merged; on a row whose last element is
    true and whose elements normalise to the dicts [ds], it returns one dict
    in which a key holds the value of the last of [ds] that has the key. *)
Theorem to_dict_row (r : row) (c : cell) (ds : list (gmap string scalar)) :
  last (row_data r) = Some c →
  (cell_bool c = false → to_dict (PRow r) = mret (PRowMapping r))
  ∧ (cell_bool c = true →
     Forall2 (λ i d, to_dict (pyobj_of_cell i) = mret (PDict d)) (row_data r) ds →
     ∃ m : gmap string scalar,
       to_dict (PRow r) = mret (PDict m)
       ∧ ∀ k v, m !! k = Some v ↔
           ∃ j d, ds !! j = Some d ∧ d !! k = Some v
                  ∧ ∀ j' d', j < j' → ds !! j' = Some d' → d' !! k = None).
Proof.
  intros Hlast. split; intros Hc.
  - simpl. unfold getitem_last. by rewrite Hlast, io_bind_ret, Hc.
  - intros Hds. exists (foldl (λ acc d, d ∪ acc) ∅ ds). split.
    + simpl. unfold getitem_last. rewrite Hlast, io_bind_ret, Hc.
      rewrite (update_loop_ok _ ds); [by rewrite io_bind_ret|].
      eapply Forall2_impl; [exact Hds|]. intros i d Hi. simpl in Hi.
      rewrite to_dict_cell_eq in Hi. by apply io_bind_PDict_inv.
    + intros k v. rewrite foldl_update_lookup. split; [|by left].
      intros [?|[Hk _]]; [done|]. by rewrite lookup_empty in Hk.
Qed.

(** C7: on an unexecuted query [to_dict] prints its complaint and returns
    [None]; it raises nothing. *)
Theorem to_dict_query (q : query) :
  stdout (to_dict (PQuery q)) = ["请先执行该sql语句!"]
  ∧ result (to_dict (PQuery q)) = Ok PNone.
Proof. done. Qed.

(** ** Lists *)

Lemma to_dict_list_loop (l : list pyobj) :
  to_dict (PList l) = (result ← list_loop l []; mret (PList result)).
Proof. reflexivity. Qed.

Lemma list_loop_ok (l rs acc : list pyobj) :
  Forall2 (λ o r, result (to_dict o) = Ok r) l rs →
  result (list_loop l acc) = Ok (acc ++ rs).
Proof.
  intros H. revert acc. induction H as [|o r l rs Ho _ IH]; intros acc.
  - simpl. by rewrite app_nil_r.
  - cbn [list_loop]. rewrite (io_bind_result_ok _ _ r Ho), IH. by rewrite <- app_assoc.
Qed.

Lemma list_loop_inv (l acc : list pyobj) (v : list pyobj) :
  result (list_loop l acc) = Ok v →
  ∃ rs, v = acc ++ rs ∧ Forall2 (λ o r, result (to_dict o) = Ok r) l rs.
Proof.
  revert acc. induction l as [|o l IH]; intros acc.
  - simpl. intros [= <-]. exists []. by rewrite app_nil_r.
  - cbn [list_loop]. destruct (result (to_dict o)) as [r|e] eqn:Ho.
    + rewrite (io_bind_result_ok _ _ r Ho). intros Hv.
      destruct (IH _ Hv) as (rs & -> & Hrs).
      exists (r :: rs). split; [by rewrite <- app_assoc|by constructor].
    + by rewrite (io_bind_result_raise _ _ e Ho).
Qed.

(** C8: [to_dict] returns on a list exactly when it returns on each element,
    and what it returns is a list as long as the input whose i-th element is
    what [to_dict] returns on the i-th input.  The empty list gives the empty
    list. *)
Theorem to_dict_list (l : list pyobj) :
  (∀ v, result (to_dict (PList l)) = Ok v ↔
        ∃ rs, v = PList rs
              ∧ length rs = length l
              ∧ ∀ i o, l !! i = Some o →
                       ∃ r, rs !! i = Some r ∧ result (to_dict o) = Ok r)
  ∧ (l = [] → to_dict (PList l) = mret (PList [])).
Proof.
  split; [|by intros ->]. intros v. rewrite to_dict_list_loop. split.
  - destruct (result (list_loop l [])) as [rs|e] eqn:Hloop.
    + rewrite (io_bind_result_ok _ _ rs Hloop). simpl. intros [= <-].
      apply list_loop_inv in Hloop as (rs' & -> & H). simpl.
      exists rs'. split_and!; [done|symmetry; by eapply Forall2_length|].
      intros i o Hi. destruct (Forall2_lookup_l _ _ _ _ _ H Hi) as (r & Hr & Hor). eauto.
    + by rewrite (io_bind_result_raise _ _ e Hloop).
  - intros (rs & -> & Hlen & Hnth).
    assert (Forall2 (λ o r, result (to_dict o) = Ok r) l rs) as H.
    { apply Forall2_same_length_lookup. split; [done|].
      intros i o r Hi Hr. destruct (Hnth i o Hi) as (r' & Hr' & Hor). congruence. }
    by rewrite (io_bind_result_ok _ _ rs (list_loop_ok l rs [] H)).
Qed.

Lemma to_dict_list_witness :
  to_dict (PList []) = mret (PList [])
  ∧ result (to_dict (PList [PEntity user; PRow flat_row]))
    = Ok (PList [PDict user_dict; PRowMapping flat_row]).
Proof.
  split.
  - apply (proj2 (to_dict_list [])). reflexivity.
  - apply (proj1 (to_dict_list [PEntity user; PRow flat_row])).
    exists [PDict user_dict; PRowMapping flat_row]. split_and!; [reflexivity..|].
    intros [|[|i]] o; simpl; intros [= <-]; eexists; (split; [reflexivity|]);
      vm_compute; reflexivity.
Defined.

Lemma to_dict_row_witness :
  to_dict (PRow flat_row) = mret (PRowMapping flat_row)
  ∧ ∃ m : gmap string scalar,
      to_dict (PRow join_row) = mret (PDict m)
      ∧ ∀ k v, m !! k = Some v ↔
          ∃ j d, [user_dict; address_dict] !! j = Some d ∧ d !! k = Some v
                 ∧ ∀ j' d', j < j' → [user_dict; address_dict] !! j' = Some d' →
                            d' !! k = None.
Proof.
  split.
  - apply (to_dict_row flat_row (CScalar SNone) []); reflexivity.
  - apply (to_dict_row join_row (CEntity address) [user_dict; address_dict]);
      [reflexivity..|].
    repeat constructor; vm_compute; reflexivity.
Defined.

(** ** Where normalisation stops *)

Lemma update_loop_scalar (cells : list cell) (result : gmap string scalar) (v : scalar) :
  CScalar v ∈ cells → update_loop cells result = raise AttributeError.
Proof.
  revert result. induction cells as [|i cells IH]; intros result Hin.
  - by apply elem_of_nil in Hin.
  - destruct i as [w|e]; [done|].
    apply elem_of_cons in Hin as [?|Hin]; [done|].
    destruct (columns_loop_ok e (mapper_keys e) ∅) as (d & Hd & _); [done|].
    simpl. unfold to_dict_cell. simpl. by rewrite Hd, io_bind_ret, IH.
Qed.

(** C3: [to_dict] is a function, and so gives one answer per input, but it
    does not return on every row.  A row with a true last element is taken
    for a join and each of its elements for an instance: with a plain column
    value among them [to_dict] raises [AttributeError].  Such is the row of
    [query(User.id, User.name)] for the user with id 1 and name ['a']. *)
Theorem to_dict_projection_row_raises (r : row) (c : cell) (v : scalar) :
  last (row_data r) = Some c → cell_bool c = true → CScalar v ∈ row_data r →
  to_dict (PRow r) = raise AttributeError.
Proof.
  intros Hlast Hc Hv. simpl. unfold getitem_last.
  by rewrite Hlast, io_bind_ret, Hc, (update_loop_scalar _ _ v Hv).
Qed.

Lemma to_dict_projection_row_raises_witness :
  to_dict (PRow projection_row) = raise AttributeError.
Proof.
  apply (to_dict_projection_row_raises projection_row (CScalar (SStr "a")) (SInt 1));
    [reflexivity..|]. apply list_elem_of_here.
Defined.

(** The dicts [to_dict] builds, for an instance or a join row, hold no
    datetime: only the mapping of a flat row can. *)
Lemma columns_loop_no_datetime (e : entity) (keys : list string)
    (result d : gmap string scalar) :
  no_datetime result → columns_loop e keys result = mret d → no_datetime d.
Proof.
  revert result. induction keys as [|key keys IH]; intros result Hres.
  - by intros [= <-].
  - simpl. unfold getattr.
    destruct (list_find _ _) as [[i [k v]]|]; [|done].
    rewrite io_bind_ret. destruct (is_datetime v) eqn:Hv; apply IH.
    all: intros k' v' Hk'; apply lookup_insert_Some in Hk' as [[_ <-]|[_ Hk']]; eauto.
Qed.

Lemma to_dict_cell_no_datetime (i : cell) (d : gmap string scalar) :
  to_dict_cell i = mret d → no_datetime d.
Proof.
  destruct i as [v|e]; [done|]. apply columns_loop_no_datetime.
  intros k v Hk. by rewrite lookup_empty in Hk.
Qed.

Lemma update_loop_no_datetime (cells : list cell) (result d : gmap string scalar) :
  no_datetime result → update_loop cells result = mret d → no_datetime d.
Proof.
  revert result. induction cells as [|i cells IH]; intros result Hres.
  - by intros [= <-].
  - simpl. destruct (to_dict_cell i) as [out [di|err]] eqn:Hi; [|done].
    intros Hloop.
    assert (out = []) as ->.
    { destruct (update_loop cells (di ∪ result)) as [out' r'].
      unfold mbind, io_bind, mret, io_ret in Hloop. simpl in Hloop.
      injection Hloop as Hout _. by apply app_eq_nil in Hout as [-> _]. }
    change ([], Ok di) with (mret (M:=io) di) in *. rewrite io_bind_ret in Hloop.
    apply (IH (di ∪ result)); [|done].
    intros k v Hk. apply lookup_union_Some_raw in Hk as [Hk|[_ Hk]]; [|by eauto].
    by eapply to_dict_cell_no_datetime.
Qed.

Lemma to_dict_dict_no_datetime (obj : pyobj) (d : gmap string scalar) :
  to_dict obj = mret (PDict d) → no_datetime d.
Proof.
  destruct obj as [v|e|r|q|l|d'|r]; simpl; try done.
  - intros H. apply io_bind_PDict_inv in H. revert H. apply columns_loop_no_datetime.
    intros k v Hk. by rewrite lookup_empty in Hk.
  - unfold getitem_last. destruct (last (row_data r)) as [c|]; [|done].
    rewrite io_bind_ret. destruct (cell_bool c); [|done].
    intros H. apply io_bind_PDict_inv in H. revert H. apply update_loop_no_datetime.
    intros k v Hk. by rewrite lookup_empty in Hk.
  - intros H. apply (f_equal result) in H.
    apply io_bind_ok_inv in H as (rs & _ & H). done.
Qed.

Lemma to_dict_dict_holds_no_datetime (obj : pyobj) (d : gmap string scalar) :
  to_dict obj = mret (PDict d) → ¬ holds_datetime (PDict d).
Proof.
  intros Hd%to_dict_dict_no_datetime [dt Hdt]. simpl in Hdt.
  apply list_elem_of_fmap in Hdt as (v & Heq & Hv). injection Heq as <-.
  apply list_elem_of_fmap in Hv as ([k v] & Heq & Hkv). simpl in Heq. subst v.
  apply elem_of_map_to_list in Hkv. by specialize (Hd _ _ Hkv).
Qed.

(** C6: a row with a false last element comes back as its own mapping, its
    values as they are: a datetime among them is still a datetime in what
    [to_dict] returns.  Such is the row of
    [query(User.created_at, User.deleted_at)] for a user never deleted. *)
Theorem to_dict_flat_row_holds_datetime (r : row) (c : cell) (dt : datetime) :
  last (row_data r) = Some c → cell_bool c = false →
  CScalar (SDatetime dt) ∈ row_data r →
  to_dict (PRow r) = mret (PRowMapping r) ∧ holds_datetime (PRowMapping r).
Proof.
  intros Hlast Hc Hdt. split; [|by exists dt].
  simpl. unfold getitem_last. by rewrite Hlast, io_bind_ret, Hc.
Qed.

Lemma to_dict_flat_row_holds_datetime_witness :
  to_dict (PRow flat_row) = mret (PRowMapping flat_row)
  ∧ holds_datetime (PRowMapping flat_row).
Proof.
  apply (to_dict_flat_row_holds_datetime flat_row (CScalar SNone) created);
    [reflexivity..|]. apply list_elem_of_here.
Defined.

(** C10: a lookup without a match gives [None], and on [None] [to_dict]
    returns nothing: it takes the branch for instances and raises
    [AttributeError] where it asks for the mapper. *)
Theorem to_dict_None_raises (q : query) :
  query_rows q = [] →
  result (get_first q) = Ok PNone
  ∧ result (get_one q) = Ok PNone
  ∧ to_dict PNone = raise AttributeError.
Proof.
  intros Hq. unfold get_first, Query_first, get_one, Query_one, try_except.
  by rewrite Hq.
Qed.

Lemma to_dict_None_raises_witness :
  result (get_first no_user) = Ok PNone
  ∧ result (get_one no_user) = Ok PNone
  ∧ to_dict PNone = raise AttributeError.
Proof. apply (to_dict_None_raises no_user). reflexivity. Defined.

(** ** Lookups *)

(** C2, as the code has it: with exactly one match [get_one] returns that
    match itself, the instance or row as the query gave it, and prints
    nothing; with no match it returns [None] and prints the not-found line
    with the query; with two or more it returns [None] and prints the
    several-found line with the query; it raises in none of the three. *)
Theorem get_one_cardinality (q : query) :
  (∀ f, query_rows q = [f] → get_one q = mret (pyobj_of_fetched f))
  ∧ (query_rows q = [] → get_one q = ([no_result_report q], Ok PNone))
  ∧ (2 ≤ length (query_rows q) → get_one q = ([multiple_report q], Ok PNone))
  ∧ reports_query (no_result_report q) q
  ∧ reports_query (multiple_report q) q
  ∧ ∀ e, result (get_one q) ≠ Raise e.
Proof.
  unfold get_one, Query_one, try_except. split_and!.
  - by intros f ->.
  - by intros ->.
  - intros Hlen. destruct (query_rows q) as [|f [|f' fs]]; simpl in Hlen; [lia..|done].
  - by exists ("db_error: 查不到数据" +:+ nl).
  - by exists ("db_error: 查到多条数据" +:+ nl).
  - intros e. by destruct (query_rows q) as [|f [|f' fs]].
Qed.

Lemma get_one_cardinality_witness :
  get_one one_user = mret (PEntity user)
  ∧ get_one no_user = ([no_result_report no_user], Ok PNone)
  ∧ get_one two_users = ([multiple_report two_users], Ok PNone).
Proof.
  split_and!.
  - apply (proj1 (get_one_cardinality one_user) (FEntity user)). reflexivity.
  - apply (proj1 (proj2 (get_one_cardinality no_user))). reflexivity.
  - apply (proj1 (proj2 (proj2 (get_one_cardinality two_users)))). simpl. lia.
Defined.

(** C2, as the claim has it, fails: the one match comes back as the instance,
    not as its dict. *)
Lemma get_one_returns_instance : ¬ get_one_normalizes one_user.
Proof. intros H. specialize (H (FEntity user) eq_refl). discriminate H. Qed.

(** ** Scoped transactions *)

(** C1, as the code has it: after a body that returns, [commit] is run, and
    the scope returns when it succeeds; an exception of class [Exception]
    from the body, or from [commit], has [rollback] run and is raised again,
    the same object, when [rollback] succeeds; an exception of another class
    ([KeyboardInterrupt], [SystemExit]) leaves the scope as it came, with no
    [rollback]. *)
Theorem auto_commit_spec {S A} `{!Session S} (body : txn S A) (s : S) :
  (∀ a s1 s2, body s = (Ok a, s1) → commit s1 = (Ok tt, s2) →
      auto_commit body s = (Ok a, s2))
  ∧ (∀ a s1 s2 s3 e, body s = (Ok a, s1) → commit s1 = (Raise e, s2) →
      is_Exception (exc_class e) = true → rollback s2 = (Ok tt, s3) →
      auto_commit body s = (Raise e, s3))
  ∧ (∀ e s1 s2, body s = (Raise e, s1) →
      is_Exception (exc_class e) = true → rollback s1 = (Ok tt, s2) →
      auto_commit body s = (Raise e, s2))
  ∧ (∀ e s1, body s = (Raise e, s1) →
      is_Exception (exc_class e) = false →
      auto_commit body s = (Raise e, s1)).
Proof.
  unfold auto_commit, try_except_Exception, mbind, txn_bind, txn_raise. split_and!.
  - intros a s1 s2 Hb Hc. by rewrite Hb, Hc.
  - intros a s1 s2 s3 e Hb Hc He Hr. by rewrite Hb, Hc, He, Hr.
  - intros e s1 s2 Hb He Hr. by rewrite Hb, He, Hr.
  - intros e s1 Hb He. by rewrite Hb, He.
Qed.

Lemma auto_commit_spec_witness :
  auto_commit stage_k empty_session = (Ok tt, mk_mem_session ["k"] [] [Commit])
  ∧ auto_commit stage_k session_with_k
    = (Raise (mk_exception 0 IntegrityError), mk_mem_session ["k"] [] [Commit; Rollback])
  ∧ auto_commit failing empty_session
    = (Raise (mk_exception 8 AttributeError), mk_mem_session [] [] [Rollback])
  ∧ auto_commit interrupted empty_session
    = (Raise (mk_exception 7 KeyboardInterrupt), mk_mem_session [] ["k"] []).
Proof.
  split_and!.
  - apply (proj1 (auto_commit_spec stage_k empty_session) tt
             (mk_mem_session [] ["k"] [])); reflexivity.
  - apply (proj1 (proj2 (auto_commit_spec stage_k session_with_k)) tt
             (mk_mem_session ["k"] ["k"] []) (mk_mem_session ["k"] ["k"] [Commit]));
      reflexivity.
  - apply (proj1 (proj2 (proj2 (auto_commit_spec failing empty_session)))
             (mk_exception 8 AttributeError) (mk_mem_session [] ["k"] []));
      reflexivity.
  - apply (proj2 (proj2 (proj2 (auto_commit_spec interrupted empty_session)))
             (mk_exception 7 KeyboardInterrupt) (mk_mem_session [] ["k"] []));
      reflexivity.
Defined.

(** C1, as the claim has it, fails: a body interrupted from the keyboard
    leaves the scope with what it staged still staged. *)
Lemma auto_commit_interrupt_not_rolled_back :
  ¬ rolls_back_on_every_exception interrupted empty_session.
Proof.
  intros H.
  specialize (H (mk_exception 7 KeyboardInterrupt) (mk_mem_session [] ["k"] []) eq_refl).
  discriminate H.
Qed.

(** ** Raw SQL *)




(** And a size of zero bounds nothing on such a cursor: both rows come
    back. *)
Lemma fetch_any_zero_every_row :
  fetch_any two_row_engine "SELECT id, name FROM users" (Some 0%Z)
  = fetch_all two_row_engine "SELECT id, name FROM users".
Proof. reflexivity. Qed.

(** * Further properties *)

(** ** Scoped transactions *)

(** X1: the scope returns exactly when the body returned and the commit
    after it succeeded; what it returns is the body's value, and the session
    is the committed one. *)
Theorem auto_commit_returns_iff {S A} `{!Session S} (body : txn S A) (s s' : S) (a : A) :
  auto_commit body s = (Ok a, s')
  ↔ ∃ s1, body s = (Ok a, s1) ∧ commit s1 = (Ok tt, s').
Proof.
  unfold auto_commit, try_except_Exception, mbind, txn_bind, mret, txn_ret, txn_raise.
  split.
  - destruct (body s) as [[a1|e] s1] eqn:Hb.
    + destruct (commit s1) as [[[]|e] s2] eqn:Hc.
      * intros [= -> ->]. eauto.
      * destruct (is_Exception (exc_class e)); [|done].
        by destruct (rollback s2) as [[[]|e'] s3].
    + destruct (is_Exception (exc_class e)); [|done].
      by destruct (rollback s1) as [[[]|e'] s2].
  - intros (s1 & -> & ->). done.
Qed.

(** X2: the scope raises [e] in three ways only.  The body, or the commit
    after it, raised [e0]; then either [e0] is no [Exception] and leaves as
    it is with no rollback, or the rollback succeeded and [e0] leaves, or the
    rollback raised and its exception leaves in place of [e0]. *)
Theorem auto_commit_raises_iff {S A} `{!Session S} (body : txn S A) (s s' : S)
    (e : exception) :
  auto_commit body s = (Raise e, s')
  ↔ ∃ e0 s0, scope_fails body s e0 s0
       ∧ if is_Exception (exc_class e0)
         then (e = e0 ∧ rollback s0 = (Ok tt, s')) ∨ rollback s0 = (Raise e, s')
         else e = e0 ∧ s' = s0.
Proof.
  unfold scope_fails, auto_commit, try_except_Exception, mbind, txn_bind, mret,
    txn_ret, txn_raise.
  split.
  - destruct (body s) as [[a1|e1] s1] eqn:Hb.
    + destruct (commit s1) as [[[]|e1] s2] eqn:Hc; [done|].
      intros H. exists e1, s2. split; [right; eauto|].
      destruct (is_Exception (exc_class e1)).
      * destruct (rollback s2) as [[[]|e'] s3]; injection H as <- <-; eauto.
      * by injection H as <- <-.
    + intros H. exists e1, s1. split; [by left|].
      destruct (is_Exception (exc_class e1)).
      * destruct (rollback s1) as [[[]|e'] s3]; injection H as <- <-; eauto.
      * by injection H as <- <-.
  - intros (e0 & s0 & [Hb|(a & s1 & Hb & Hc)] & H); rewrite Hb; [|rewrite Hc];
      destruct (is_Exception (exc_class e0)).
    all: try (destruct H as [[-> ->] | ->]; done).
    all: by destruct H as [-> ->].
Qed.

Lemma auto_commit_raises_iff_witness :
  auto_commit failing_scripted lost_session = (Raise connection_lost, mk_scripted []).
Proof.
  apply (proj2 (auto_commit_raises_iff failing_scripted lost_session
                  (mk_scripted []) connection_lost)).
  exists (mk_exception 8 AttributeError), lost_session. split; [by left|].
  right. reflexivity.
Defined.

(** ** Lookups *)

(** X4: what [get_one] returns, when it is not [None], is what [get_first]
    returns and the one element of what [get_all] returns; and whenever
    [get_all] returns a single match, [get_one] returns it. *)
Theorem get_one_agrees (q : query) (v : pyobj) :
  v ≠ PNone →
  (result (get_one q) = Ok v ↔ result (get_all q) = Ok (PList [v]))
  ∧ (result (get_one q) = Ok v → result (get_first q) = Ok v).
Proof.
  intros Hv. unfold get_one, get_all, get_first, Query_one, Query_all, Query_first,
    try_except.
  destruct (query_rows q) as [|f [|f' fs]]; simpl; split; try split; try done.
  all: intros [= <-]; done.
Qed.

Lemma get_one_agrees_witness :
  (result (get_one one_user) = Ok (PEntity user)
   ↔ result (get_all one_user) = Ok (PList [PEntity user]))
  ∧ (result (get_one one_user) = Ok (PEntity user)
     → result (get_first one_user) = Ok (PEntity user)).
Proof. apply (get_one_agrees one_user (PEntity user)). discriminate. Defined.

(** ** Normalisation: induction over values and the loops *)

(** Induction over values, the elements of a list being values too. *)
Lemma pyobj_nested_ind (P : pyobj → Prop) :
  (∀ v, P (PScalar v)) → (∀ e, P (PEntity e)) → (∀ r, P (PRow r)) →
  (∀ q, P (PQuery q)) → (∀ l, Forall P l → P (PList l)) →
  (∀ d, P (PDict d)) → (∀ r, P (PRowMapping r)) →
  ∀ obj, P obj.
Proof.
  intros Hscalar Hentity Hrow Hquery Hlist Hdict Hmapping.
  fix IH 1. intros [v|e|r|q|l|d|r].
  - exact (Hscalar v).
  - exact (Hentity e).
  - exact (Hrow r).
  - exact (Hquery q).
  - apply Hlist. induction l as [|o l IHl].
    + exact (Forall_nil_2 P).
    + exact (Forall_cons_2 P o l (IH o) IHl).
  - exact (Hdict d).
  - exact (Hmapping r).
Qed.

Lemma io_bind_stdout {A B} (m : io A) (f : A → io B) :
  stdout (x ← m; f x)
  = stdout m ++ match result m with Ok a => stdout (f a) | Raise _ => [] end.
Proof. destruct m as [out [a|e']]; simpl; [done|by rewrite app_nil_r]. Qed.

(** An instance always has its dict. *)
Lemma to_dict_cell_entity (e : entity) :
  ∃ d, to_dict_cell (CEntity e) = mret d
       ∧ to_dict (PEntity e) = mret (PDict d)
       ∧ dom d = list_to_set (mapper_keys e)
       ∧ ∀ k, k ∈ mapper_keys e →
           ∃ v, getattr e k = mret v ∧ d !! k = Some (stored_value v).
Proof.
  destruct (columns_loop_ok e (mapper_keys e) ∅) as (d & Hd & Hdom & Hin & _); [done|].
  exists d. split_and!; [done| |set_solver|].
  - simpl. by rewrite Hd, io_bind_ret.
  - intros k Hk. destruct (getattr_mapped e k Hk) as [v Hv]. eauto.
Qed.

(** The branch for instances returns a dict or raises [AttributeError], and
    prints nothing. *)
Lemma to_dict_mapped_cases (obj : pyobj) :
  (∃ d, to_dict_mapped obj = mret d) ∨ to_dict_mapped obj = raise AttributeError.
Proof.
  destruct obj as [v|e|r|q|l|d|r]; try (by right).
  left. destruct (to_dict_cell_entity e) as (d & Hd & _). eauto.
Qed.

Lemma update_loop_cases (cells : list cell) (result : gmap string scalar) :
  (∃ d, update_loop cells result = mret d)
  ∨ update_loop cells result = raise AttributeError.
Proof.
  revert result. induction cells as [|i cells IH]; intros result; [by left; eexists|].
  simpl. destruct (to_dict_mapped_cases (pyobj_of_cell i)) as [[d Hd]|Hd];
    unfold to_dict_cell; rewrite Hd.
  - rewrite io_bind_ret. apply IH.
  - by right.
Qed.

Lemma list_loop_ret (l rs acc : list pyobj) :
  Forall2 (λ o r, to_dict o = mret r) l rs → list_loop l acc = mret (acc ++ rs).
Proof.
  intros H. revert acc. induction H as [|o r l rs Ho _ IH]; intros acc.
  - simpl. by rewrite app_nil_r.
  - cbn [list_loop]. rewrite Ho, io_bind_ret, IH. by rewrite <- app_assoc.
Qed.

(** The keys after the updates: those of [result] and of every dict. *)
Lemma foldl_update_dom (ds : list (gmap string scalar)) (result : gmap string scalar)
    (k : string) :
  k ∈ dom (foldl (λ acc d, d ∪ acc) result ds)
  ↔ k ∈ dom result ∨ ∃ d, d ∈ ds ∧ k ∈ dom d.
Proof.
  revert result. induction ds as [|d ds IH]; intros result; simpl.
  - split; [by left|]. intros [?|(d & Hd & _)]; [done|]. by apply elem_of_nil in Hd.
  - rewrite IH, dom_union, elem_of_union. split.
    + intros [[Hk|Hk]|(d' & Hd' & Hk)].
      * right. exists d. split; [apply list_elem_of_here|done].
      * by left.
      * right. exists d'. split; [by apply list_elem_of_further|done].
    + intros [Hk|(d' & Hd' & Hk)]; [by left; right|].
      apply elem_of_cons in Hd' as [->|Hd']; [by left; left|].
      right. eauto.
Qed.

Lemma entities_dicts (es : list entity) :
  ∃ ds, Forall2 (λ e d, to_dict_cell (CEntity e) = mret d
                        ∧ to_dict (PEntity e) = mret (PDict d)
                        ∧ dom d = list_to_set (mapper_keys e)
                        ∧ ∀ k, k ∈ mapper_keys e →
                            ∃ v, getattr e k = mret v ∧ d !! k = Some (stored_value v))
                es ds.
Proof.
  induction es as [|e es [ds IH]]; [by exists []|].
  destruct (to_dict_cell_entity e) as (d & Hd). exists (d :: ds). by constructor.
Qed.

(** ** Join rows *)

(** X5: on a row made of instances only, [to_dict] always returns a dict;
    its keys are the column names of all the instances together, and a name
    holds the value of the last instance that has a column of that name, so
    the same-named columns of the instances before it are not in the
    dict. *)
Theorem to_dict_join_row (r : row) (es : list entity) :
  row_data r = CEntity <$> es → es ≠ [] →
  ∃ m : gmap string scalar,
    to_dict (PRow r) = mret (PDict m)
    ∧ (∀ k, k ∈ dom m ↔ ∃ e, e ∈ es ∧ k ∈ mapper_keys e)
    ∧ ∀ j e k, es !! j = Some e → k ∈ mapper_keys e →
        (∀ j' e', j < j' → es !! j' = Some e' → k ∉ mapper_keys e') →
        ∃ v, getattr e k = mret v ∧ m !! k = Some (stored_value v).
Proof.
  intros Hdata Hne. destruct (entities_dicts es) as [ds Hds].
  exists (foldl (λ acc d, d ∪ acc) ∅ ds). split_and!.
  - apply last_is_Some in Hne as [e Hlast]. simpl. unfold getitem_last.
    rewrite Hdata, fmap_last, Hlast. change (CEntity <$> Some e) with (Some (CEntity e)).
    cbv iota. rewrite io_bind_ret. cbn [cell_bool].
    rewrite (update_loop_ok _ ds); [by rewrite io_bind_ret|].
    apply Forall2_fmap_l. eapply Forall2_impl; [exact Hds|]. by intros e' d [? _].
  - intros k. rewrite foldl_update_dom, dom_empty. split.
    + intros [Hk|(d & Hd & Hk)]; [by apply elem_of_empty in Hk|].
      apply list_elem_of_lookup in Hd as [j Hj].
      destruct (Forall2_lookup_r _ _ _ _ _ Hds Hj) as (e & He & _ & _ & Hdom & _).
      exists e. split; [by eapply list_elem_of_lookup_2|].
      rewrite Hdom in Hk. by apply elem_of_list_to_set in Hk.
    + intros (e & He & Hk). right.
      apply list_elem_of_lookup in He as [j Hj].
      destruct (Forall2_lookup_l _ _ _ _ _ Hds Hj) as (d & Hd & _ & _ & Hdom & _).
      exists d. split; [by eapply list_elem_of_lookup_2|].
      rewrite Hdom. by apply elem_of_list_to_set.
  - intros j e k Hj Hk Hlater.
    destruct (Forall2_lookup_l _ _ _ _ _ Hds Hj) as (d & Hd & _ & _ & _ & Hval).
    destruct (Hval k Hk) as (v & Hv & Hdk). exists v. split; [done|].
    apply foldl_update_lookup. left. exists j, d. split_and!; [done..|].
    intros j' d' Hlt Hj'.
    destruct (Forall2_lookup_r _ _ _ _ _ Hds Hj') as (e' & He' & _ & _ & Hdom & _).
    apply not_elem_of_dom. rewrite Hdom. rewrite elem_of_list_to_set. by eapply Hlater.
Qed.

Lemma to_dict_join_row_witness :
  ∃ m : gmap string scalar,
    to_dict (PRow join_row) = mret (PDict m)
    ∧ (∀ k, k ∈ dom m ↔ ∃ e, e ∈ [user; address] ∧ k ∈ mapper_keys e)
    ∧ ∀ j e k, [user; address] !! j = Some e → k ∈ mapper_keys e →
        (∀ j' e', j < j' → [user; address] !! j' = Some e' → k ∉ mapper_keys e') →
        ∃ v, getattr e k = mret v ∧ m !! k = Some (stored_value v).
Proof. apply (to_dict_join_row join_row [user; address]); [reflexivity|discriminate]. Defined.

(** ** Normalising what a lookup returns *)

(** X6: on what [get_all] returns for a query of one entity, [to_dict]
    always returns: a list with one dict per match, in the order of the
    matches, each with the column names of its instance as keys; nothing is
    printed. *)
Theorem to_dict_get_all_entities (q : query) (es : list entity) :
  query_rows q = FEntity <$> es →
  ∃ ds : list (gmap string scalar),
    (rows ← get_all q; to_dict rows) = mret (PList (PDict <$> ds))
    ∧ Forall2 (λ e d, to_dict (PEntity e) = mret (PDict d)
                      ∧ dom d = list_to_set (mapper_keys e)) es ds.
Proof.
  intros Hq. destruct (entities_dicts es) as [ds Hds]. exists ds. split.
  - unfold get_all, Query_all. rewrite io_bind_ret, Hq, to_dict_list_loop.
    rewrite (list_loop_ret _ (PDict <$> ds)); [by rewrite io_bind_ret|].
    rewrite <- list_fmap_compose. apply Forall2_fmap.
    eapply Forall2_impl; [exact Hds|]. by intros e d (_ & ? & _).
  - eapply Forall2_impl; [exact Hds|]. by intros e d (_ & ? & ? & _).
Qed.

Lemma to_dict_get_all_entities_witness :
  ∃ ds : list (gmap string scalar),
    (rows ← get_all two_users; to_dict rows) = mret (PList (PDict <$> ds))
    ∧ Forall2 (λ e d, to_dict (PEntity e) = mret (PDict d)
                      ∧ dom d = list_to_set (mapper_keys e)) [user; user] ds.
Proof. apply (to_dict_get_all_entities two_users [user; user]). reflexivity. Defined.

(** X7: [to_dict] on what [get_one] returns, when the matches are not one,
    raises [AttributeError], after the one line of [get_one] about the
    query. *)
Theorem to_dict_get_one_not_single (q : query) :
  length (query_rows q) ≠ 1 →
  ∃ line, (o ← get_one q; to_dict o) = ([line], Raise AttributeError)
          ∧ reports_query line q.
Proof.
  intros Hlen. unfold get_one, Query_one, try_except.
  destruct (query_rows q) as [|f [|f' fs]]; [|done|].
  - exists (no_result_report q). split; [done|].
    by exists ("db_error: 查不到数据" +:+ nl).
  - exists (multiple_report q). split; [done|].
    by exists ("db_error: 查到多条数据" +:+ nl).
Qed.

Lemma to_dict_get_one_not_single_witness :
  ∃ line, (o ← get_one two_users; to_dict o) = ([line], Raise AttributeError)
          ∧ reports_query line two_users.
Proof. apply (to_dict_get_one_not_single two_users). simpl. lia. Defined.

(** ** [to_dict] on what [to_dict] returned *)

Lemma to_dict_normalized (obj v : pyobj) :
  result (to_dict obj) = Ok v → normalized v = true.
Proof.
  revert v. induction obj as [w|e|r|q|l IH|d|r] using pyobj_nested_ind; intros v.
  1,6,7: by simpl.
  - simpl. by intros (d' & _ & [= <-])%io_bind_ok_inv.
  - simpl. intros (c & _ & H)%io_bind_ok_inv. destruct (cell_bool c).
    + by apply io_bind_ok_inv in H as (d' & _ & [= <-]).
    + by injection H as <-.
  - by intros [= <-].
  - rewrite to_dict_list_loop. intros (rs & Hloop & [= <-])%io_bind_ok_inv.
    apply list_loop_inv in Hloop as (rs' & -> & H). simpl.
    induction H as [|o r l rs Ho _ IHrs]; [done|].
    apply Forall_cons in IH as [IHo IHl]. simpl. by rewrite (IHo r Ho), IHrs.
Qed.

Lemma list_loop_leafless (l acc : list pyobj) :
  Forall (λ o, to_dict o = if leafless o then mret o else raise AttributeError) l →
  list_loop l acc = if forallb leafless l then mret (acc ++ l) else raise AttributeError.
Proof.
  intros H. revert acc. induction H as [|o l Ho _ IH]; intros acc.
  - simpl. by rewrite app_nil_r.
  - cbn [list_loop forallb]. rewrite Ho. destruct (leafless o); [|done].
    rewrite io_bind_ret, IH. simpl. by rewrite <- app_assoc.
Qed.

Lemma to_dict_of_normalized (v : pyobj) :
  normalized v = true →
  to_dict v = if leafless v then mret v else raise AttributeError.
Proof.
  induction v as [w|e|r|q|l IH|d|r] using pyobj_nested_ind; try done.
  intros Hl. change (normalized (PList l)) with (forallb normalized l) in Hl.
  change (leafless (PList l)) with (forallb leafless l).
  rewrite to_dict_list_loop, list_loop_leafless.
  - by destruct (forallb leafless l).
  - apply Is_true_true, forallb_True in Hl. rewrite Forall_forall in IH, Hl |- *.
    intros o Ho. apply (IH o Ho). by apply Is_true_true, Hl.
Qed.

(** X9: [to_dict] does not take its own results.  On what it returned it
    raises [AttributeError], unless that is made of lists alone, lists
    within lists with no dict, mapping or [None] in them, which it returns
    as they are. *)
Theorem to_dict_twice (obj v : pyobj) :
  result (to_dict obj) = Ok v →
  to_dict v = if leafless v then mret v else raise AttributeError.
Proof. intros H. eapply to_dict_of_normalized, to_dict_normalized, H. Qed.

Lemma to_dict_twice_witness :
  to_dict (PDict user_dict) = raise AttributeError ∧ to_dict (PList []) = mret (PList []).
Proof.
  split.
  - apply (to_dict_twice (PEntity user) (PDict user_dict)). vm_compute. reflexivity.
  - apply (to_dict_twice (PList []) (PList [])). reflexivity.
Defined.

(** ** What [to_dict] prints *)

Lemma to_dict_row_cases (r : row) :
  (∃ v, to_dict (PRow r) = mret v ∧ ((∃ d, v = PDict d) ∨ v = PRowMapping r))
  ∨ (∃ e, to_dict (PRow r) = raise e).
Proof.
  simpl. unfold getitem_last. destruct (last (row_data r)) as [c|]; [|right; by eexists].
  rewrite io_bind_ret. destruct (cell_bool c); [|left; eauto].
  destruct (update_loop_cases (row_data r) ∅) as [[d ->]| ->].
  - left. exists (PDict d). rewrite io_bind_ret. eauto.
  - right. by eexists.
Qed.

Lemma list_loop_prints (l acc : list pyobj) :
  Forall (λ o, ∃ n, stdout (to_dict o) = replicate n misuse_line
                    ∧ n ≤ count_queries o
                    ∧ ∀ v, result (to_dict o) = Ok v → n = count_queries o) l →
  ∃ n, stdout (list_loop l acc) = replicate n misuse_line
       ∧ n ≤ foldr (λ o n, count_queries o + n) 0 l
       ∧ ∀ v, result (list_loop l acc) = Ok v
              → n = foldr (λ o n, count_queries o + n) 0 l.
Proof.
  intros H. revert acc. induction H as [|o l (no & Hout & Hle & Hok) _ IH]; intros acc.
  - exists 0. by split_and!.
  - cbn [list_loop foldr]. rewrite io_bind_stdout.
    destruct (result (to_dict o)) as [r|e] eqn:Ho.
    + destruct (IH (acc ++ [r])) as (nl & Houtl & Hlel & Hokl).
      exists (no + nl). split_and!.
      * by rewrite Hout, Houtl, replicate_add.
      * lia.
      * intros v Hv. rewrite (io_bind_result_ok _ _ r Ho) in Hv.
        rewrite (Hok r eq_refl), (Hokl v Hv). done.
    + exists no. split_and!; [by rewrite app_nil_r|lia|].
      intros v Hv. by rewrite (io_bind_result_raise _ _ e Ho) in Hv.
Qed.

(** X11: [to_dict] prints nothing but its line about an unexecuted query, at
    most once per [Query] in the value, and exactly once per [Query] when it
    returns; on a value without a [Query] it prints nothing. *)
Theorem to_dict_prints (obj : pyobj) :
  ∃ n, stdout (to_dict obj) = replicate n misuse_line
       ∧ n ≤ count_queries obj
       ∧ ∀ v, result (to_dict obj) = Ok v → n = count_queries obj.
Proof.
  induction obj as [w|e|r|q|l IH|d|r] using pyobj_nested_ind.
  1,6,7: by exists 0.
  - exists 0. destruct (to_dict_cell_entity e) as (d & _ & -> & _). done.
  - exists 0. by destruct (to_dict_row_cases r) as [(v & -> & _)|(e & ->)].
  - by exists 1.
  - destruct (list_loop_prints l [] IH) as (n & Hout & Hle & Hok).
    exists n. rewrite to_dict_list_loop. split_and!.
    + rewrite io_bind_stdout, Hout. destruct (result (list_loop l [])); apply app_nil_r.
    + done.
    + intros v (rs & Hrs & _)%io_bind_ok_inv. by eapply Hok.
Qed.

(** ** What the dicts hold *)

(** X8: a dict that [to_dict] returns, for an instance or for a join row,
    holds no datetime: each was stored as its string. *)
Theorem to_dict_dict_serialized (obj : pyobj) (d : gmap string scalar) :
  result (to_dict obj) = Ok (PDict d) → no_datetime d ∧ ¬ holds_datetime (PDict d).
Proof.
  intros H. assert (to_dict obj = mret (PDict d)) as Hd.
  { destruct obj as [w|e|r|q|l|d'|r]; try done.
    - destruct (to_dict_cell_entity e) as (d0 & _ & Hd0 & _).
      rewrite Hd0 in H |- *. by injection H as ->.
    - destruct (to_dict_row_cases r) as [(v & Hv & _)|(e & He)]; rewrite ?Hv, ?He in H |- *;
        [by injection H as ->|done].
    - rewrite to_dict_list_loop in H. by apply io_bind_ok_inv in H as (rs & _ & H). }
  split; [by eapply to_dict_dict_no_datetime|].
  intros [dt Hdt]. simpl in Hdt.
  apply list_elem_of_fmap in Hdt as (v & Heq & Hv). injection Heq as <-.
  apply list_elem_of_fmap in Hv as ([k v] & Heq & Hkv). simpl in Heq. subst v.
  apply elem_of_map_to_list in Hkv.
  by specialize (to_dict_dict_no_datetime _ _ Hd _ _ Hkv).
Qed.

Lemma to_dict_dict_serialized_witness :
  no_datetime user_dict ∧ ¬ holds_datetime (PDict user_dict).
Proof. apply (to_dict_dict_serialized (PEntity user)). vm_compute. reflexivity. Defined.

(** ** Connection set-up *)

Lemma string_app_nil_r (s : string) : s +:+ "" = s.
Proof.
  induction s as [|c s IH]; [done|].
  change (String c s +:+ "") with (String c (s +:+ "")). by rewrite IH.
Qed.

Lemma getitem_Ok {V} (d : gmap string V) (key : string) (v : V) :
  getitem d key = Ok v ↔ d !! key = Some v.
Proof. unfold getitem. destruct (d !! key); split; congruence. Qed.

Lemma getitem_Raise {V} (d : gmap string V) (key : string) (e : exn) :
  getitem d key = Raise e ↔ e = KeyError key ∧ d !! key = None.
Proof.
  unfold getitem. destruct (d !! key); split; try done.
  - by intros [_ ?].
  - by intros [= <-].
  - by intros [-> _].
Qed.

Lemma outcome_bind_Ok_inv {A B} (m : outcome exn A) (f : A → outcome exn B) (b : B) :
  (x ← m; f x) = Ok b → ∃ a, m = Ok a ∧ f a = Ok b.
Proof. destruct m as [a|e]; [by exists a|done]. Qed.

Lemma outcome_bind_Raise_inv {A B} (m : outcome exn A) (f : A → outcome exn B) (e : exn) :
  (x ← m; f x) = Raise e → m = Raise e ∨ ∃ a, m = Ok a ∧ f a = Raise e.
Proof.
  destruct m as [a|e']; [right; by exists a|].
  intros H. left. by injection H as ->.
Qed.

Lemma py_add_Raise (a b : scalar) (e : exn) : py_add a b = Raise e → e = TypeError.
Proof.
  unfold py_add. destruct a, b; simpl; try congruence;
    repeat match goal with |- context [if ?c then _ else _] => destruct c end; congruence.
Qed.

Lemma py_and_getitem_Ok (conn : gmap string scalar) (a c : scalar) :
  py_and a (getitem conn "driver") = Ok c →
  c = a ∨ conn !! "driver" = Some c.
Proof.
  unfold py_and. destruct (scalar_bool a); [|by intros [= <-]; left].
  intros H%getitem_Ok. by right.
Qed.

Lemma db_type_Ok (conn : gmap string scalar) (v : scalar) :
  db_type conn = Ok v → is_Some (conn !! "dialect") ∧ is_Some (conn !! "driver").
Proof.
  unfold db_type. intros (c & _ & H)%outcome_bind_Ok_inv.
  destruct (scalar_bool c);
    apply outcome_bind_Ok_inv in H as (a & Ha%getitem_Ok & H);
    apply outcome_bind_Ok_inv in H as (b & Hb%getitem_Ok & _); eauto.
Qed.

Lemma db_type_Raise (conn : gmap string scalar) (e : exn) :
  db_type conn = Raise e →
  e = TypeError ∨ ∃ k, k ∈ ["dialect"; "driver"] ∧ e = KeyError k ∧ conn !! k = None.
Proof.
  assert (∀ k, getitem conn k = Raise e → k ∈ ["dialect"; "driver"] →
               ∃ k, k ∈ ["dialect"; "driver"] ∧ e = KeyError k ∧ conn !! k = None) as Hget.
  { intros k [-> Hk]%getitem_Raise Hin. eauto. }
  assert ("dialect" ∈ ["dialect"; "driver"]) as Hdialect by apply list_elem_of_here.
  assert ("driver" ∈ ["dialect"; "driver"]) as Hdriver
    by apply list_elem_of_further, list_elem_of_here.
  unfold db_type. intros [H|(c & _ & H)]%outcome_bind_Raise_inv.
  - apply outcome_bind_Raise_inv in H as [H|(a & _ & H)]; [right; eauto|].
    unfold py_and in H. destruct (scalar_bool a); [right; eauto|done].
  - destruct (scalar_bool c);
      apply outcome_bind_Raise_inv in H as [H|(a & _ & H)]; [right; eauto| |right; eauto|];
      apply outcome_bind_Raise_inv in H as [H|(b & _ & H)]; [right; eauto|done|right; eauto|].
    left. by eapply py_add_Raise.
Qed.

(** X12: [Engine.__init__] gets as far as [URL.create] only with all seven
    keys in [conn]; a [KeyError] it raises names one of the seven, and that
    key is not in [conn]. *)
Theorem url_create_args_needs_keys (conn : gmap string scalar) :
  (∀ a, url_create_args conn = Ok a → ∀ k, k ∈ conn_keys → is_Some (conn !! k))
  ∧ (∀ k, url_create_args conn = Raise (KeyError k) → k ∈ conn_keys ∧ conn !! k = None).
Proof.
  unfold url_create_args, conn_keys. split.
  - intros a H k Hk.
    apply outcome_bind_Ok_inv in H as (v & [Hdialect Hdriver]%db_type_Ok & H).
    apply outcome_bind_Ok_inv in H as (u & Hu%getitem_Ok & H).
    apply outcome_bind_Ok_inv in H as (pw & Hpw%getitem_Ok & H).
    apply outcome_bind_Ok_inv in H as (h & Hh%getitem_Ok & H).
    apply outcome_bind_Ok_inv in H as (po & Hpo%getitem_Ok & H).
    apply outcome_bind_Ok_inv in H as (db & Hdb%getitem_Ok & H).
    repeat (apply elem_of_cons in Hk as [->|Hk]; [by eauto|]).
    by apply elem_of_nil in Hk.
  - intros k H.
    apply outcome_bind_Raise_inv in H as [H|(v & _ & H)].
    { apply db_type_Raise in H as [?|(k' & Hk' & [= ->] & Hnone)]; [done|].
      split; [|done]. set_solver. }
    repeat (apply outcome_bind_Raise_inv in H as [[[= <-] Hnone]%getitem_Raise|(? & _ & H)];
            [split; [set_solver|done]|]).
    done.
Qed.

Lemma url_create_args_needs_keys_witness :
  (∀ k, k ∈ conn_keys → is_Some (mysql_conn !! k))
  ∧ ("port" ∈ conn_keys ∧ delete "port" mysql_conn !! "port" = None).
Proof.
  split.
  - apply (proj1 (url_create_args_needs_keys mysql_conn)
             (mk_url_args (SStr "mysql+pymysql") (SStr "root") (SStr "pw")
                (SStr "localhost") (SInt 3306) (SStr "test"))).
    reflexivity.
  - apply (proj2 (url_create_args_needs_keys (delete "port" mysql_conn)) "port").
    reflexivity.
Defined.

(** X13: with strings for the dialect and the driver, the name handed to
    [URL.create] is the two joined by ["+"] when neither is empty and the two
    put together otherwise, so the dialect alone for an empty driver and the
    driver alone for an empty dialect; the other five values are handed on as
    they are. *)
Theorem url_create_args_strings (conn : gmap string scalar) (d r : string)
    (u pw h po db : scalar) :
  conn !! "dialect" = Some (SStr d) → conn !! "driver" = Some (SStr r) →
  conn !! "username" = Some u → conn !! "password" = Some pw →
  conn !! "host" = Some h → conn !! "port" = Some po → conn !! "database" = Some db →
  url_create_args conn
  = Ok (mk_url_args
          (SStr (if scalar_bool (SStr d) && scalar_bool (SStr r)
                 then d +:+ "+" +:+ r else d +:+ r))
          u pw h po db)
  ∧ (r = "" → db_type conn = Ok (SStr d))
  ∧ (d = "" → db_type conn = Ok (SStr r)).
Proof.
  intros Hd Hr Hu Hpw Hh Hpo Hdb.
  assert (db_type conn = Ok (SStr (if scalar_bool (SStr d) && scalar_bool (SStr r)
                                   then d +:+ "+" +:+ r else d +:+ r))) as Htype.
  { unfold db_type, py_and, getitem. rewrite Hd, Hr. simpl.
    destruct (negb (String.eqb d "")) eqn:Hd'; simpl; rewrite ?Hd'; [|done].
    by destruct (negb (String.eqb r "")) eqn:Hr'; simpl. }
  split_and!.
  - unfold url_create_args, getitem. by rewrite Htype, Hu, Hpw, Hh, Hpo, Hdb.
  - intros ->. rewrite Htype. simpl. rewrite andb_false_r. by rewrite string_app_nil_r.
  - intros ->. by rewrite Htype.
Qed.

Lemma url_create_args_strings_witness :
  (url_create_args sqlite_conn
   = Ok (mk_url_args (SStr "sqlite") SNone SNone SNone SNone (SStr ":memory:")))
  ∧ (url_create_args mysql_conn
     = Ok (mk_url_args (SStr "mysql+pymysql") (SStr "root") (SStr "pw")
             (SStr "localhost") (SInt 3306) (SStr "test"))).
Proof.
  split.
  - apply (url_create_args_strings sqlite_conn "sqlite" ""); reflexivity.
  - apply (url_create_args_strings mysql_conn "mysql" "pymysql"); reflexivity.
Defined.

(** X14: a dialect or a driver that is [None] is not taken for an empty
    string: with both keys present and either value [None], the set-up
    raises [TypeError] before [URL.create] is called. *)
Theorem db_type_None_raises (conn : gmap string scalar) (a b : scalar) :
  conn !! "dialect" = Some a → conn !! "driver" = Some b →
  a = SNone ∨ b = SNone →
  db_type conn = Raise TypeError ∧ url_create_args conn = Raise TypeError.
Proof.
  intros Ha Hb Hnone.
  assert (db_type conn = Raise TypeError) as Htype.
  { unfold db_type, py_and, getitem. rewrite Ha, Hb. simpl.
    destruct Hnone as [-> | ->]; [done|].
    destruct (scalar_bool a) eqn:Hbool; simpl; rewrite ?Hbool; by destruct a as [| [|] | | |]. }
  split; [done|]. unfold url_create_args. by rewrite Htype.
Qed.

Lemma db_type_None_raises_witness :
  db_type null_driver_conn = Raise TypeError
  ∧ url_create_args null_driver_conn = Raise TypeError.
Proof.
  apply (db_type_None_raises null_driver_conn (SStr "sqlite") SNone);
    [reflexivity..|]. by right.
Defined.

(** ** Timing hooks *)

Section hooks.
Context {T : Type} (sub : T → T → T) (ge_one : T → bool) (format_3f : T → string).

Lemma setdefault_present (info : gmap string (list T)) :
  is_Some (info !! query_start_time) → (setdefault query_start_time [] info).2 = info.
Proof. unfold setdefault. by intros [l ->]. Qed.

Lemma setdefault_lookup (info : gmap string (list T)) :
  (setdefault query_start_time [] info).2 !! query_start_time = Some (pending info).
Proof.
  unfold setdefault, pending.
  destruct (info !! query_start_time) as [l|] eqn:Hl; simpl; [done|].
  by rewrite lookup_insert_eq.
Qed.

Lemma setdefault_other (info : gmap string (list T)) (k : string) :
  k ≠ query_start_time → (setdefault query_start_time [] info).2 !! k = info !! k.
Proof.
  intros Hk. unfold setdefault. destruct (info !! query_start_time); simpl; [done|].
  by rewrite lookup_insert_ne.
Qed.

Lemma before_cursor_execute_eq (now : T) (info : gmap string (list T)) :
  before_cursor_execute now info
  = <[query_start_time := pending info ++ [now]]> (setdefault query_start_time [] info).2.
Proof.
  unfold before_cursor_execute, setdefault, pending.
  by destruct (info !! query_start_time).
Qed.

Lemma before_setdefault (now : T) (info : gmap string (list T)) :
  before_cursor_execute now (setdefault query_start_time [] info).2
  = before_cursor_execute now info.
Proof.
  rewrite !before_cursor_execute_eq. unfold pending at 1.
  rewrite setdefault_lookup. simpl.
  rewrite (setdefault_present (setdefault _ _ _).2); [done|].
  rewrite setdefault_lookup. by eexists.
Qed.

(** One execution: the [after] hook takes the start its [before] hook put,
    and leaves the list as it was. *)
Lemma after_before (now now' : T) (statement : string) (info : gmap string (list T)) :
  after_cursor_execute sub ge_one format_3f now' statement (before_cursor_execute now info)
  = (if ge_one (sub now' now)
     then [slow_report format_3f statement (sub now' now)] else [],
     Ok tt,
     (setdefault query_start_time [] info).2).
Proof.
  rewrite before_cursor_execute_eq. unfold after_cursor_execute, getitem, pop_last.
  rewrite lookup_insert_eq, last_snoc, removelast_last, insert_insert_eq.
  f_equal. apply insert_id, setdefault_lookup.
Qed.

Lemma setdefault_befores (starts : list T) (info : gmap string (list T)) :
  (setdefault query_start_time [] (befores starts info)).2
  = befores starts (setdefault query_start_time [] info).2.
Proof.
  revert info. induction starts as [|now starts IH]; intros info; [done|].
  unfold befores in *. simpl. rewrite IH, before_setdefault.
  rewrite setdefault_present; [done|].
  rewrite before_cursor_execute_eq, lookup_insert_eq. by eexists.
Qed.

Lemma afters_befores (starts : list T) (ends : list (T * string))
    (info : gmap string (list T)) :
  length ends = length starts →
  afters sub ge_one format_3f ends (befores starts info)
  = (paired_reports sub ge_one format_3f ends starts, Ok tt,
     match starts with
     | [] => info
     | _ :: _ => (setdefault query_start_time [] info).2
     end).
Proof.
  revert ends info. induction starts as [|start starts IH] using rev_ind;
    intros ends info Hlen.
  - by destruct ends.
  - rewrite length_app in Hlen. destruct ends as [|[now statement] ends]; simpl in Hlen;
      [lia|].
    unfold befores. rewrite foldl_snoc. fold (befores starts info).
    cbn [afters]. rewrite after_before, setdefault_befores, IH by lia.
    unfold paired_reports. rewrite rev_unit. simpl.
    f_equal. destruct starts; simpl; [done|].
    rewrite setdefault_present; [done|]. rewrite setdefault_lookup. by eexists.
Qed.

(** X16: cursor executions one inside the other.  After as many [after]
    hooks as [before] hooks no hook has raised, the start times pending
    before are pending again and the other entries of [conn.info] are
    untouched; each [after] hook measured from the latest start not yet
    taken, and printed its line when that made a second or more. *)
Theorem afters_befores_balanced (starts : list T) (ends : list (T * string))
    (info : gmap string (list T)) :
  length ends = length starts →
  ∃ info', afters sub ge_one format_3f ends (befores starts info)
           = (paired_reports sub ge_one format_3f ends starts, Ok tt, info')
           ∧ pending info' = pending info
           ∧ (∀ k, k ≠ query_start_time → info' !! k = info !! k)
           ∧ (is_Some (info !! query_start_time) → info' = info).
Proof.
  intros Hlen. rewrite (afters_befores starts ends info Hlen).
  destruct starts as [|start starts]; [by eexists|].
  eexists. split_and!; [done| | |].
  - unfold pending at 1. by rewrite setdefault_lookup.
  - apply setdefault_other.
  - apply setdefault_present.
Qed.

(** X17: one [after] hook more than [before] hooks, with no start pending
    to begin with.  The hook without a start raises: [KeyError] when no
    [before] hook has ever run on the connection, [IndexError] otherwise;
    the hooks before it have printed as usual. *)
Theorem afters_unmatched (starts : list T) (ends : list (T * string))
    (now : T) (statement : string) (info : gmap string (list T)) :
  length ends = length starts → pending info = [] →
  ∃ e info', afters sub ge_one format_3f (ends ++ [(now, statement)]) (befores starts info)
             = (paired_reports sub ge_one format_3f ends starts, Raise e, info')
             ∧ e = if decide (starts = [] ∧ info !! query_start_time = None)
                   then KeyError query_start_time else Exn IndexError.
Proof.
  intros Hlen Hpending.
  assert (∀ (es : list (T * string)) i out i',
            afters sub ge_one format_3f es i = (out, Ok tt, i') →
            afters sub ge_one format_3f (es ++ [(now, statement)]) i
            = (let '(o, r, i'') := after_cursor_execute sub ge_one format_3f now statement i'
               in (out ++ o, r, i''))) as Happ.
  { induction es as [|[n st] es IH]; intros i out i'.
    - intros [= <- <-]. simpl.
      by destruct (after_cursor_execute _ _ _ _ _ _) as [[o [[]|e]] i''];
        rewrite ?app_nil_r.
    - cbn [afters app].
      destruct (after_cursor_execute sub ge_one format_3f n st i) as [[o [[]|e]] i1]; [|done].
      destruct (afters sub ge_one format_3f es i1) as [[o' r'] i2] eqn:Hes.
      intros [= <- -> <-]. rewrite (IH _ _ _ Hes).
      destruct (after_cursor_execute _ _ _ _ _ _) as [[o2 r2] i3].
      by rewrite app_assoc. }
  rewrite (Happ _ _ _ _ (afters_befores starts ends info Hlen)).
  unfold after_cursor_execute, getitem, pop_last.
  destruct starts as [|start starts].
  - unfold pending in Hpending. destruct (info !! query_start_time) as [l|] eqn:Hl.
    + simpl in Hpending. subst l. cbn [last]. eexists _, _. rewrite app_nil_r.
      split; [done|]. case_decide as Hd; [by destruct Hd|done].
    + eexists _, _. rewrite app_nil_r. split; [done|]. by case_decide as Hd; [|destruct Hd].
  - rewrite setdefault_lookup, Hpending. cbn [last]. eexists _, _. rewrite app_nil_r.
    split; [done|]. case_decide as Hd; [by destruct Hd|done].
Qed.

End hooks.

Lemma afters_befores_balanced_witness :
  ∃ info', afters ms_sub ms_ge_one ms_format [(1500, "SELECT 2"); (1600, "SELECT 1")]%Z
             (befores [0; 100]%Z ∅)
           = (["Query: SELECT 2, 用时:1400s"; "Query: SELECT 1, 用时:1600s"], Ok tt, info')
           ∧ pending info' = pending (∅ : gmap string (list Z))
           ∧ (∀ k, k ≠ query_start_time → info' !! k = (∅ : gmap string (list Z)) !! k)
           ∧ (is_Some ((∅ : gmap string (list Z)) !! query_start_time) → info' = ∅).
Proof.
  apply (afters_befores_balanced ms_sub ms_ge_one ms_format [0; 100]%Z
           [(1500, "SELECT 2"); (1600, "SELECT 1")]%Z ∅).
  reflexivity.
Defined.

Lemma afters_unmatched_witness :
  ∃ e info', afters ms_sub ms_ge_one ms_format ([(1500%Z, "SELECT 1")] ++ [(1600%Z, "SELECT 2")])
               (befores [0%Z] ∅)
             = (paired_reports ms_sub ms_ge_one ms_format [(1500%Z, "SELECT 1")] [0%Z],
                Raise e, info')
             ∧ e = if decide ([0%Z] = [] ∧ (∅ : gmap string (list Z)) !! query_start_time = None)
                   then KeyError query_start_time else Exn IndexError.
Proof.
  apply (afters_unmatched ms_sub ms_ge_one ms_format [0%Z] [(1500%Z, "SELECT 1")]
           1600%Z "SELECT 2" ∅); reflexivity.
Defined.
